(** * Chord inference engine of guess_chords.py

    A shallow embedding of [normalize_note], [note_to_semitone],
    [semitone_to_note], [calculate_intervals] and [guess_chord], and of the
    formatting functions and the chord part of the main program of
    tabs_to_notes.py, followed by their properties.

    Python values are modelled as follows.
    - a note name is a [string];
    - the result of [dict.get] on the semitone table is an [option Z], where
      [None] is Python's [None];
    - the two lookup dictionaries are [gmap string _]; the chord catalogue,
      which is iterated with [.items()] in insertion order, is an
      association list;
    - [set(...)] is a [gset (option Z)];
    - a call that may raise returns a [result]. *)

From stdpp Require Import gmap strings list sorting.
From Stdlib Require Import ZArith Ascii.

Local Open Scope Z_scope.

(** ** Exceptions *)

Inductive exn : Set := TypeError | KeyError | IndexError.

Inductive result (A : Type) : Type :=
| Return (a : A)
| Raise (e : exn).
Arguments Return {A} a.
Arguments Raise {A} e.

(** Sequencing: an exception raised by the first computation escapes. *)
#[global] Instance result_bind : MBind result :=
  fun A B (k : A -> result B) (m : result A) =>
    match m with
    | Return a => k a
    | Raise e => Raise e
    end.

(** [[f(x) for x in xs]] where [f] may raise: evaluated left to right, the
    first exception escapes. *)
Fixpoint for_each {A B : Type} (f : A -> result B) (xs : list A) : result (list B) :=
  match xs with
  | [] => Return []
  | x :: xs' => y ← f x; ys ← for_each f xs'; Return (y :: ys)
  end.

(** ** Pitch model *)

Definition enharmonic_map : gmap string string :=
  list_to_map
    [ ("A#", "Bb"); ("Bb", "A#");
      ("C#", "Db"); ("Db", "C#");
      ("D#", "Eb"); ("Eb", "D#");
      ("F#", "Gb"); ("Gb", "F#");
      ("G#", "Ab"); ("Ab", "G#") ]%string.

(** [enharmonic_map.get(note, note)] *)
Definition normalize_note (note : string) : string :=
  default note (enharmonic_map !! note).

Definition semitone_map : gmap string Z :=
  list_to_map
    [ ("C", 0); ("C#", 1); ("D", 2); ("D#", 3); ("E", 4); ("F", 5);
      ("F#", 6); ("G", 7); ("G#", 8); ("A", 9); ("A#", 10); ("B", 11) ]%string.

(** [semitone_map.get(normalize_note(note))]: [None] when the key is absent. *)
Definition note_to_semitone (note : string) : option Z :=
  semitone_map !! normalize_note note.

Definition notes_table : list string :=
  [ "C"; "C#"; "D"; "D#"; "E"; "F"; "F#"; "G"; "G#"; "A"; "A#"; "B" ]%string.

(** [x % 12] on a Python value: [None % 12] raises [TypeError]. *)
Definition py_mod12 (x : option Z) : result Z :=
  match x with
  | Some z => Return (z mod 12)
  | None => Raise TypeError
  end.

(** [l[i]]: a negative index counts from the end, an index out of range
    raises [IndexError]. *)
Definition py_index {A : Type} (l : list A) (i : Z) : result A :=
  let j := if i <? 0 then i + Z.of_nat (length l) else i in
  if j <? 0 then Raise IndexError
  else match l !! Z.to_nat j with
       | Some a => Return a
       | None => Raise IndexError
       end.

(** [notes[semitone % 12]] *)
Definition semitone_to_note (semitone : option Z) : result string :=
  i ← py_mod12 semitone; py_index notes_table i.

(** ** Pattern catalogue

    [chord_intervals], in the order of the dictionary literal, which is the
    order [.items()] yields. *)

Definition chord_intervals : list (string * list Z) :=
  [ ("Major", [0; 4; 7]);
    ("minor", [0; 3; 7]);
    ("Dim", [0; 3; 6]);
    ("Aug", [0; 4; 8]);
    ("Maj7", [0; 4; 7; 11]);
    ("m7", [0; 3; 7; 10]);
    ("7", [0; 4; 7; 10]);
    ("Dim7", [0; 3; 6; 9]);
    ("Sus2", [0; 2; 7]);
    ("Sus4", [0; 5; 7]);
    ("6", [0; 4; 7; 9]);
    ("m6", [0; 3; 7; 9]);
    ("9", [0; 4; 7; 10; 14]);
    ("m9", [0; 3; 7; 10; 14]);
    ("Maj9", [0; 4; 7; 11; 14]) ]%string.

(** ** Inference engine *)

(** [note.split('(')[0]]: the characters before the first opening
    parenthesis, the whole string when there is none. *)
Fixpoint split_paren_head (note : string) : string :=
  match note with
  | EmptyString => EmptyString
  | String c rest =>
      if Ascii.eqb c "("%char then EmptyString
      else String c (split_paren_head rest)
  end.

(** The integers of a list of Python values, when all of them are. *)
Fixpoint all_ints (l : list (option Z)) : option (list Z) :=
  match l with
  | [] => Some []
  | x :: l' => z ← x; zs ← all_ints l'; Some (z :: zs)
  end.

(** [sorted(xs)] on integers; the ascending arrangement is unique, so any
    correct sort models it. *)
Definition sorted_ints (xs : list Z) : list Z := merge_sort Z.le xs.

(** [sorted(xs)] on values that are integers or [None].  With fewer than two
    elements nothing is compared.  Otherwise every element takes part in at
    least one comparison, and [<] between [None] and anything raises
    [TypeError]. *)
Definition py_sorted (xs : list (option Z)) : result (list (option Z)) :=
  match xs with
  | [] | [_] => Return xs
  | _ =>
      match all_ints xs with
      | Some zs => Return (Some <$> sorted_ints zs)
      | None => Raise TypeError
      end
  end.

(** [s - r] on Python values. *)
Definition py_sub (s r : option Z) : result Z :=
  match s, r with
  | Some a, Some b => Return (a - b)
  | _, _ => Raise TypeError
  end.

(** The body of the [try] block: [cleaned_notes] and [semitones]. *)
Definition cleaned_notes (notes : list string) : list string :=
  split_paren_head <$> notes.

Definition semitone_set (notes : list string) : gset (option Z) :=
  list_to_set (note_to_semitone <$> cleaned_notes notes).

Definition semitones_of (notes : list string) : result (list (option Z)) :=
  py_sorted (elements (semitone_set notes)).

(** [sorted((s - root_semitone) % 12 for s in semitones)] *)
Definition intervals_of (root_semitone : option Z) (semitones : list (option Z))
  : result (list Z) :=
  ds ← for_each (fun s => d ← py_sub s root_semitone; Return (d mod 12)) semitones;
  Return (sorted_ints ds).

(** The inner loop over [chord_intervals.items()]: the first chord type whose
    test succeeds. *)
Fixpoint match_pattern (intervals : list Z) (items : list (string * list Z))
  : option string :=
  match items with
  | [] => None
  | (chord_type, pattern) :: items' =>
      if bool_decide (3 <= length intervals)%nat
         && bool_decide (intervals = take (length intervals) pattern)
      then Some chord_type
      else match_pattern intervals items'
  end.

(** The outer loop over the candidate roots; [None] when it runs to its end
    without returning. *)
Fixpoint try_roots (semitones roots : list (option Z)) : result (option string) :=
  match roots with
  | [] => Return None
  | root_semitone :: roots' =>
      intervals ← intervals_of root_semitone semitones;
      match match_pattern intervals chord_intervals with
      | Some chord_type =>
          root_note ← semitone_to_note root_semitone;
          Return (Some (root_note +:+ " " +:+ chord_type))
      | None => try_roots semitones roots'
      end
  end.

(** The special cases after the loop. *)
Definition special_cases (semitones : list (option Z)) : result string :=
  if bool_decide (length semitones = 2%nat) then
    s1 ← py_index semitones 1;
    s0 ← py_index semitones 0;
    d ← py_sub s1 s0;
    let interval := d mod 12 in
    root_note ← semitone_to_note s0;
    if interval =? 7 then Return (root_note +:+ " 5")
    else if interval =? 4 then Return (root_note +:+ " (no fifth)")
    else if interval =? 3 then Return (root_note +:+ " Minor (no fifth)")
    else Return "Unknown"%string
  else Return "Unknown"%string.

Definition calculate_intervals (notes : list string) : result string :=
  match notes with
  | [] => Return "Unknown"%string
  | _ =>
      match semitones_of notes with
      | Raise TypeError | Raise KeyError => Return "Unknown"%string
      | Raise e => Raise e
      | Return semitones =>
          found ← try_roots semitones semitones;
          match found with
          | Some label => Return label
          | None => special_cases semitones
          end
      end
  end.

Definition guess_chord (notes : list string) : result string :=
  match notes with
  | [] => Return "Unknown"%string
  | [note] => Return (note +:+ " (single note)")
  | _ => calculate_intervals notes
  end.

(** ** The spelling tables of the pitch model *)

Definition flat_sharp_spellings : list string :=
  [ "A#"; "Bb"; "C#"; "Db"; "D#"; "Eb"; "F#"; "Gb"; "G#"; "Ab" ]%string.

Definition natural_names : list string :=
  [ "C"; "D"; "E"; "F"; "G"; "A"; "B" ]%string.

(** ** The matching rule in the words of the specification

    These definitions follow the specification, not the code; they are what
    the code's loops are compared with. *)

(** The interval signature of the pitch set [S] relative to the root [r]:
    the offsets [(s - r) mod 12], in ascending order. *)
Definition signature (S : list Z) (r : Z) : list Z :=
  sorted_ints ((fun s => (s - r) mod 12) <$> S).

(** A catalogue entry fits a signature when its interval list, cut to the
    length of the signature, is the signature. *)
Definition fits (sig : list Z) (entry : string * list Z) : Prop :=
  take (length sig) entry.2 = sig.

#[global] Instance fits_dec (sig : list Z) (entry : string * list Z) :
  Decision (fits sig entry) := decide (take (length sig) entry.2 = sig).

(** All (root, entry) pairs: roots in the order of [S], and for each root
    the catalogue in declaration order. *)
Definition candidates (S : list Z) : list (Z * (string * list Z)) :=
  r ← S; (fun entry => (r, entry)) <$> chord_intervals.

(** The first pair whose entry fits the signature at its root. *)
Definition first_match (S : list Z) : option (Z * (string * list Z)) :=
  find (fun c => bool_decide (fits (signature S c.1) c.2)) (candidates S).

(** The catalogue splits into the twelve entries within one octave and the
    three extended entries that hold the interval 14. *)
Definition octave_entries : list (string * list Z) := take 12 chord_intervals.
Definition extended_entries : list (string * list Z) := drop 12 chord_intervals.

(** An offset is a residue modulo 12. *)
Definition is_offset (x : Z) : Prop := 0 ≤ x < 12.

(** The last character of a string. *)
Fixpoint string_last (s : string) : option ascii :=
  match s with
  | EmptyString => None
  | String c EmptyString => Some c
  | String _ rest => string_last rest
  end.

(** A string that ends in the digit 9, as a label of chord type ["9"],
    ["m9"] or ["Maj9"] would. *)
Definition ends_in_9 (s : string) : Prop := string_last s = Some "9"%char.

(** The two-note fallback: the label for a root name and the interval
    between the two pitches. *)
Definition two_note_label (root : string) (interval : Z) : string :=
  if interval =? 7 then root +:+ " 5"
  else if interval =? 4 then root +:+ " (no fifth)"
  else if interval =? 3 then root +:+ " Minor (no fifth)"
  else "Unknown".

(** ** The caller, tabs_to_notes.py

    The formatting functions and the part of the main program that feeds the
    engine.  Characters are code points below 256.  The input loops, which
    read the console and the fretboard table, are not modelled. *)

(** [c.isspace()], which decides where [str.split()] cuts. *)
Definition py_isspace (c : ascii) : bool :=
  let n := nat_of_ascii c in
  bool_decide (9 ≤ n ≤ 13 ∨ 28 ≤ n ≤ 32 ∨ n = 133 ∨ n = 160)%nat.

(** [s.split()]: the maximal runs of characters that are not white space. *)
Fixpoint py_split (s : string) : list string :=
  match s with
  | EmptyString => []
  | String c rest =>
      if py_isspace c then py_split rest
      else match rest with
           | EmptyString => [String c EmptyString]
           | String c' _ =>
               if py_isspace c' then String c EmptyString :: py_split rest
               else match py_split rest with
                    | word :: words => String c word :: words
                    | [] => [String c EmptyString]
                    end
           end
  end.

(** [sep.join(words)] *)
Fixpoint py_join (sep : string) (words : list string) : string :=
  match words with
  | [] => EmptyString
  | [word] => word
  | word :: words' => word +:+ sep +:+ py_join sep words'
  end.

(** [s.endswith(c)] for a one-character suffix. *)
Definition py_endswith (s : string) (c : ascii) : bool :=
  bool_decide (string_last s = Some c).

(** The truth value of a string or [None]. *)
Definition py_truthy (x : option string) : bool :=
  match x with
  | Some s => bool_decide (s ≠ EmptyString)
  | None => false
  end.

Module tabs_to_notes.

Definition enharmonic_map : gmap string string :=
  list_to_map
    [ ("A#", "Bb"); ("Bb", "A#");
      ("C#", "Db"); ("Db", "C#");
      ("D#", "Eb"); ("Eb", "D#");
      ("F#", "Gb"); ("Gb", "F#");
      ("G#", "Ab"); ("Ab", "G#") ]%string.

Definition format_note_with_enharmonic (note : string) : string :=
  let enharmonic := enharmonic_map !! note in
  if py_truthy enharmonic then
    if py_endswith note "#"%char
    then note +:+ "(" +:+ default EmptyString enharmonic +:+ ")"
    else note +:+ "(" +:+ default EmptyString enharmonic +:+ ")"
  else note.

Definition format_chord_with_enharmonic (chord : string) : result string :=
  if bool_decide (chord = EmptyString) then Return "Unknown"%string
  else
    root_note ← py_index (py_split chord) 0;
    let enharmonic := enharmonic_map !! root_note in
    let rest_of_chord := py_join " " (drop 1 (py_split chord)) in
    if py_truthy enharmonic
    then Return (root_note +:+ "(" +:+ default EmptyString enharmonic
                 +:+ ") " +:+ rest_of_chord)
    else Return chord.

(** The main program from the collected notes on: a note is a triple of
    string name, fret and formatted pitch name. *)
Definition note_names (notes : list (string * Z * string)) : list string :=
  (fun entry => normalize_note (split_paren_head entry.2)) <$> notes.

Definition formatted_chord (notes : list (string * Z * string)) : result string :=
  guessed_chord ← guess_chord (note_names notes);
  format_chord_with_enharmonic guessed_chord.

End tabs_to_notes.

(** The twelve spellings that have a semitone value, with their values. *)
Definition accepted_semitones : list (string * Z) :=
  [ ("C", 0); ("Db", 1); ("D", 2); ("Eb", 3); ("E", 4); ("F", 5);
    ("Gb", 6); ("G", 7); ("Ab", 8); ("A", 9); ("Bb", 10); ("B", 11) ]%string.

(** The entries of the two dictionaries of the pitch model. *)
Definition enharmonic_items : list (string * string) :=
  [ ("A#", "Bb"); ("Bb", "A#");
    ("C#", "Db"); ("Db", "C#");
    ("D#", "Eb"); ("Eb", "D#");
    ("F#", "Gb"); ("Gb", "F#");
    ("G#", "Ab"); ("Ab", "G#") ]%string.

Definition semitone_items : list (string * Z) :=
  [ ("C", 0); ("C#", 1); ("D", 2); ("D#", 3); ("E", 4); ("F", 5);
    ("F#", 6); ("G", 7); ("G#", 8); ("A", 9); ("A#", 10); ("B", 11) ]%string.

(** The names [semitone_to_note] gives the tones of the chord with root [z]
    and the intervals [pattern]. *)
Definition chord_tones (z : Z) (pattern : list Z) : result (list string) :=
  for_each (fun p => semitone_to_note (Some (z + p))) pattern.

(** The chord types that no inversion of theirs turns into the truncation of
    a catalogue entry. *)
Definition key_independent_types : list string :=
  [ "Major"; "minor"; "Dim"; "Maj7"; "7"; "m6" ]%string.

(** A string of white space only. *)
Fixpoint blank (s : string) : bool :=
  match s with
  | EmptyString => true
  | String c rest => py_isspace c && blank rest
  end.

(** The chord types of the two-note fallback. *)
Definition two_note_types : list string :=
  [ "5"; "(no fifth)"; "Minor (no fifth)" ]%string.

(** * Properties *)

(** ** The engine on the inputs of the module's own test list and of the
    specification *)

Example flat_converts : note_to_semitone "Bb" = Some 10.
Proof. by vm_compute. Qed.

Example name_of_13 : semitone_to_note (Some 13) = Return "C#"%string.
Proof. by vm_compute. Qed.

Example c_major : guess_chord ["C"; "E"; "G"]%string = Return "C Major"%string.
Proof. by vm_compute. Qed.

Example a_minor : guess_chord ["A"; "C"; "E"]%string = Return "A minor"%string.
Proof. by vm_compute. Qed.

Example annotated_flats :
  guess_chord ["Ab(G#)"; "C"; "Eb"]%string = Return "G# Major"%string.
Proof. by vm_compute. Qed.

Example tritone : guess_chord ["C"; "Gb"]%string = Return "Unknown"%string.
Proof. by vm_compute. Qed.

Example sharps_with_natural :
  guess_chord ["F#"; "A"; "C#"]%string = Return "Unknown"%string.
Proof. by vm_compute. Qed.

Example first_match_dominant_seventh :
  first_match [0; 4; 7; 10] = Some (0, ("7"%string, [0; 4; 7; 10])).
Proof. by vm_compute. Qed.

(** ** Pitch model *)

(** C1. [normalize_note] is total, but the table it consults holds both
    directions of every enharmonic pair, so a sharp spelling is not left
    alone: ["A#"] comes back as ["Bb"]. *)
Theorem normalize_note_sharp_becomes_flat :
  normalize_note "A#" = "Bb"%string ∧ normalize_note "A#" ≠ "A#"%string.
Proof. split; [by vm_compute | by vm_compute]. Qed.

(** C2. The canonical name ["C#"] has no semitone value: it is first turned
    into ["Db"], which the semitone table does not hold, and converting the
    missing value back to a name raises. *)
Theorem note_to_semitone_sharp_undefined :
  note_to_semitone "C#" = None
  ∧ semitone_to_note (note_to_semitone "C#") = Raise TypeError.
Proof. split; by vm_compute. Qed.

(** C9. Applying [normalize_note] twice gives back every sharp or flat
    spelling of the table, and a natural name is left unchanged. *)
Theorem normalize_note_involution :
  Forall (fun x => normalize_note (normalize_note x) = x) flat_sharp_spellings
  ∧ Forall (fun x => normalize_note x = x) natural_names.
Proof.
  split.
  - unfold flat_sharp_spellings. repeat constructor; by vm_compute.
  - unfold natural_names. repeat constructor; by vm_compute.
Qed.

(** ** Entry point *)

(** C10. A one-element input is echoed verbatim in front of
    [" (single note)"]: nothing is normalised, stripped or checked. *)
Theorem guess_chord_single_note (p : string) :
  guess_chord [p] = Return (p +:+ " (single note)")
  ∧ guess_chord ["G#(Ab)"%string] = Return "G#(Ab) (single note)"%string
  ∧ guess_chord ["Zzz"%string] = Return "Zzz (single note)"%string.
Proof. split; [reflexivity | split; reflexivity]. Qed.

(** C3. When no token of a list of two or more converts, the set of
    semitones is the single value [None]; sorting it compares nothing, and
    the subtraction in the root loop, outside the [try], raises.  The last
    entry of the module's own test list, three sharp spellings, is such an
    input. *)
Theorem guess_chord_raises :
  guess_chord ["Z9"; "Z9"]%string = Raise TypeError
  ∧ calculate_intervals ["Z9"; "Z9"]%string = Raise TypeError
  ∧ guess_chord ["F#"; "A#"; "C#"]%string = Raise TypeError.
Proof. repeat split; by vm_compute. Qed.

(** ** Conversion of the input to a sorted list of semitones *)

Lemma all_ints_None (l : list (option Z)) : None ∈ l → all_ints l = None.
Proof.
  induction l as [|[z|] l IH]; intros Hin.
  - by apply elem_of_nil in Hin.
  - apply elem_of_cons in Hin as [Hin|Hin]; [done|].
    simpl. by rewrite (IH Hin).
  - done.
Qed.

Lemma all_ints_Some (l : list (option Z)) (zs : list Z) :
  all_ints l = Some zs → l = Some <$> zs.
Proof.
  revert zs. induction l as [|[z|] l IH]; intros zs Hl; simpl in Hl.
  - by inversion Hl.
  - destruct (all_ints l) as [zs'|] eqn:E; simpl in Hl; [|done].
    inversion Hl; subst. simpl. by rewrite (IH zs').
  - done.
Qed.

Lemma all_ints_fmap (zs : list Z) : all_ints (Some <$> zs) = Some zs.
Proof. induction zs as [|z zs IH]; [done|]. csimpl. by rewrite IH. Qed.

(** The guard of [guess_chord] and the one of [calculate_intervals] are both
    passed by a list of two or more tokens; what is then computed depends on
    the tokens only through the set of their semitone values. *)
Lemma guess_chord_two_or_more (notes : list string) :
  (2 ≤ length notes)%nat →
  guess_chord notes =
    match py_sorted (elements (semitone_set notes)) with
    | Raise TypeError | Raise KeyError => Return "Unknown"%string
    | Raise e => Raise e
    | Return semitones =>
        found ← try_roots semitones semitones;
        match found with
        | Some label => Return label
        | None => special_cases semitones
        end
    end.
Proof.
  destruct notes as [|a [|b notes]]; simpl; intros Hlen; try lia.
  reflexivity.
Qed.

Lemma semitone_set_elem (notes : list string) (v : option Z) :
  v ∈ semitone_set notes ↔
  ∃ t, t ∈ notes ∧ note_to_semitone (split_paren_head t) = v.
Proof.
  unfold semitone_set, cleaned_notes.
  rewrite elem_of_list_to_set, list_elem_of_fmap. split.
  - intros (c & -> & Hc). apply list_elem_of_fmap in Hc as (t & -> & Ht). eauto.
  - intros (t & Ht & <-). eexists. split; [done|].
    apply list_elem_of_fmap. eauto.
Qed.

Lemma semitone_set_same_elements (p q : list string) :
  (∀ x, x ∈ q ↔ x ∈ p) → semitone_set q = semitone_set p.
Proof.
  intros Hpq. apply set_eq. intros v. rewrite !semitone_set_elem.
  split; intros (t & Ht & Hv); exists t; split; auto; by apply Hpq.
Qed.

(** A list holding [None] and an integer cannot be sorted. *)
Lemma py_sorted_mixed (l : list (option Z)) (z : Z) :
  None ∈ l → Some z ∈ l → py_sorted l = Raise TypeError.
Proof.
  intros HN HS. destruct l as [|x [|y l]].
  - by apply elem_of_nil in HN.
  - apply list_elem_of_singleton in HN. apply list_elem_of_singleton in HS.
    congruence.
  - unfold py_sorted. by rewrite (all_ints_None _ HN).
Qed.

(** ** Order and duplicates *)

(** C4, as stated, fails on a one-element list: doubling its only entry
    leaves the single-note branch. *)
Lemma guess_chord_duplicate_of_single_note :
  sublist ["C"%string] ["C"; "C"]%string
  ∧ ["C"; "C"]%string ⊆ ["C"%string]
  ∧ guess_chord ["C"%string] = Return "C (single note)"%string
  ∧ guess_chord ["C"; "C"]%string = Return "Unknown"%string
  ∧ guess_chord ["C"; "C"]%string ≠ guess_chord ["C"%string].
Proof.
  split; [by repeat constructor|].
  split; [intros x Hx; apply elem_of_cons in Hx as [->|Hx]; [by left|done]|].
  repeat split; by vm_compute.
Qed.

(** C4. The result is the same for every permutation of the input; and, for
    an input of two or more entries, for every list made from it by
    inserting further copies of entries it already holds. *)
Theorem guess_chord_order_and_duplicates (p q : list string) :
  (p ≡ₚ q → guess_chord q = guess_chord p)
  ∧ ((2 ≤ length p)%nat → sublist p q → q ⊆ p →
     guess_chord q = guess_chord p).
Proof.
  assert (Hsame : (2 ≤ length p)%nat → (2 ≤ length q)%nat →
                  (∀ x, x ∈ q ↔ x ∈ p) → guess_chord q = guess_chord p).
  { intros Hp Hq Hpq. rewrite !guess_chord_two_or_more by done.
    by rewrite (semitone_set_same_elements p q). }
  split.
  - intros Hperm. destruct p as [|a [|b p]].
    + apply Permutation_nil_l in Hperm. by subst.
    + apply Permutation_singleton_l in Hperm. by subst.
    + apply Hsame.
      * simpl; lia.
      * rewrite <- Hperm. simpl; lia.
      * intros x. by rewrite Hperm.
  - intros Hp Hsub Hincl. apply Hsame; [done| |].
    + apply sublist_length in Hsub. lia.
    + intros x. split; [apply Hincl|].
      intros Hx. by eapply elem_of_sublist.
Qed.

Lemma guess_chord_order_and_duplicates_witness :
  guess_chord ["G"; "E"; "C"]%string = guess_chord ["C"; "E"; "G"]%string
  ∧ guess_chord ["C"; "E"; "C"; "G"]%string = guess_chord ["C"; "E"; "G"]%string.
Proof.
  split.
  - apply (proj1 (guess_chord_order_and_duplicates
                    ["C"; "E"; "G"]%string ["G"; "E"; "C"]%string)).
    symmetry. apply (reverse_Permutation ["C"; "E"; "G"]%string).
  - apply (proj2 (guess_chord_order_and_duplicates
                    ["C"; "E"; "G"]%string ["C"; "E"; "C"; "G"]%string)).
    + simpl; lia.
    + apply sublist_skip, sublist_skip, sublist_cons, sublist_skip, sublist_nil.
    + intros x Hx. repeat (apply elem_of_cons in Hx as [->|Hx]);
        [set_solver ..|by apply elem_of_nil in Hx].
Defined.

(** ** Tokens that do not convert *)

(** C5, as stated, fails on a one-element list, whose token is never
    converted at all. *)
Lemma guess_chord_single_invalid_token :
  note_to_semitone (split_paren_head "Zzz") = None
  ∧ guess_chord ["Zzz"%string] = Return "Zzz (single note)"%string
  ∧ guess_chord ["Zzz"%string] ≠ Return "Unknown"%string.
Proof. repeat split; by vm_compute. Qed.

(** C5. When some token of the input does not convert and some other token
    does, the result is ["Unknown"]. *)
Theorem guess_chord_invalid_token (notes : list string) :
  Exists (fun t => note_to_semitone (split_paren_head t) = None) notes →
  Exists (fun t => is_Some (note_to_semitone (split_paren_head t))) notes →
  guess_chord notes = Return "Unknown"%string.
Proof.
  intros (t1 & Ht1 & Hbad)%Exists_exists (t2 & Ht2 & [z Hgood])%Exists_exists.
  assert (Hlen : (2 ≤ length notes)%nat).
  { destruct notes as [|a [|b notes]]; simpl; try lia.
    - by apply elem_of_nil in Ht1.
    - apply list_elem_of_singleton in Ht1, Ht2. subst. congruence. }
  rewrite guess_chord_two_or_more by done.
  rewrite (py_sorted_mixed _ z); [done| |].
  - apply elem_of_elements, semitone_set_elem. eauto.
  - apply elem_of_elements, semitone_set_elem. eauto.
Qed.

Lemma guess_chord_invalid_token_witness :
  guess_chord ["C"; "E"; "Z9"]%string = Return "Unknown"%string.
Proof.
  apply (guess_chord_invalid_token ["C"; "E"; "Z9"]%string).
  - apply Exists_cons_tl, Exists_cons_tl, Exists_cons_hd. by vm_compute.
  - apply Exists_cons_hd. exists 0. by vm_compute.
Defined.

(** ** The root loop on a pitch set of integers *)

Lemma length_sorted_ints (l : list Z) : length (sorted_ints l) = length l.
Proof. unfold sorted_ints. by rewrite merge_sort_Permutation. Qed.

Lemma length_signature (S : list Z) (r : Z) : length (signature S r) = length S.
Proof. unfold signature. by rewrite length_sorted_ints, length_fmap. Qed.

Lemma intervals_of_ints (r : Z) (S : list Z) :
  intervals_of (Some r) (Some <$> S) = Return (signature S r).
Proof.
  unfold intervals_of, signature.
  assert (for_each (fun s => d ← py_sub s (Some r); Return (d mod 12)) (Some <$> S)
          = Return ((fun s => (s - r) mod 12) <$> S)) as ->; [|done].
  induction S as [|s S IH]; [done|]. csimpl. by rewrite IH.
Qed.

(** Every integer has a note name. *)
Lemma semitone_to_note_total (z : Z) :
  ∃ name, semitone_to_note (Some z) = Return name ∧ name ∈ notes_table.
Proof.
  pose proof (Z.mod_pos_bound z 12 eq_refl) as Hz.
  assert ((z mod 12 <? 0) = false) as Hlt by lia.
  unfold semitone_to_note, py_mod12, py_index. csimpl.
  rewrite Hlt. csimpl. rewrite Hlt.
  destruct (notes_table !! Z.to_nat (z mod 12)) as [name|] eqn:E.
  - exists name. split; [done|]. by eapply list_elem_of_lookup_2.
  - apply lookup_ge_None in E. simpl in E. lia.
Qed.

(** Signatures of fewer than three offsets are never compared with the
    catalogue. *)
Lemma match_pattern_short (intervals : list Z) (items : list (string * list Z)) :
  (length intervals < 3)%nat → match_pattern intervals items = None.
Proof.
  intros Hlen. induction items as [|[ty pat] items IH]; [done|].
  simpl. rewrite bool_decide_eq_false_2 by lia. done.
Qed.

Lemma bind_Return {A B : Type} (a : A) (k : A → result B) :
  Return a ≫= k = k a.
Proof. reflexivity. Qed.

Lemma try_roots_cons (semitones roots : list (option Z)) (root_semitone : option Z) :
  try_roots semitones (root_semitone :: roots) =
    intervals ← intervals_of root_semitone semitones;
    match match_pattern intervals chord_intervals with
    | Some chord_type =>
        root_note ← semitone_to_note root_semitone;
        Return (Some (root_note +:+ " " +:+ chord_type))
    | None => try_roots semitones roots
    end.
Proof. reflexivity. Qed.

Lemma try_roots_short (S R : list Z) :
  (length S < 3)%nat → try_roots (Some <$> S) (Some <$> R) = Return None.
Proof.
  intros Hlen. induction R as [|r R IH]; [done|].
  rewrite fmap_cons, try_roots_cons, intervals_of_ints, bind_Return.
  rewrite match_pattern_short by (by rewrite length_signature). done.
Qed.

(** ** The sorted pitch set *)

Lemma StronglySorted_le_lt (l : list Z) :
  StronglySorted Z.le l → NoDup l → StronglySorted Z.lt l.
Proof.
  induction 1 as [|x l Hl IH Hx]; intros Hnd; constructor.
  - apply IH. by apply NoDup_cons in Hnd as [_ ?].
  - apply NoDup_cons in Hnd as [Hnotin _].
    apply Forall_forall. intros y Hy.
    assert (x ≠ y) by (intros ->; by apply Hnotin, list_elem_of_In).
    rewrite Forall_forall in Hx. specialize (Hx y Hy). lia.
Qed.

Lemma sorted_ints_strict (zs : list Z) :
  NoDup zs → StronglySorted Z.lt (sorted_ints zs).
Proof.
  intros Hnd. apply StronglySorted_le_lt.
  - apply StronglySorted_merge_sort; apply _.
  - unfold sorted_ints. by rewrite merge_sort_Permutation.
Qed.

(** What [sorted] returns on a list of integers. *)
Lemma py_sorted_ints (zs : list Z) :
  py_sorted (Some <$> zs) = Return (Some <$> sorted_ints zs).
Proof.
  destruct zs as [|a [|b zs]]; [done..|].
  unfold py_sorted. rewrite !fmap_cons.
  change (Some a :: Some b :: (Some <$> zs)) with (Some <$> (a :: b :: zs)).
  by rewrite all_ints_fmap.
Qed.

(** When every token converts, the set of semitones holds integers only. *)
Lemma semitone_set_ints (notes : list string) :
  Forall (fun t => is_Some (note_to_semitone (split_paren_head t))) notes →
  ∃ zs, elements (semitone_set notes) = Some <$> zs ∧ NoDup zs.
Proof.
  intros Hall.
  assert (Hsome : Forall is_Some (elements (semitone_set notes))).
  { apply Forall_forall. intros v Hv.
    apply elem_of_elements, semitone_set_elem in Hv as (t & Ht & <-).
    rewrite Forall_forall in Hall. by apply Hall. }
  pose proof (NoDup_elements (semitone_set notes)) as Hnd.
  revert Hsome Hnd. generalize (elements (semitone_set notes)). intros l.
  induction l as [|v l IH]; intros Hsome Hnd.
  - exists []. split; [done|constructor].
  - apply Forall_cons in Hsome as [[z ->] Hsome].
    apply NoDup_cons in Hnd as [Hz Hnd].
    destruct (IH Hsome Hnd) as (zs & -> & Hzs).
    exists (z :: zs). split; [done|].
    apply NoDup_cons. split; [|done].
    intros Hin. apply Hz. by apply list_elem_of_fmap_2.
Qed.

Lemma size_list_to_set_le (l : list (option Z)) :
  (size (list_to_set (C:=gset (option Z)) l) ≤ length l)%nat.
Proof.
  induction l as [|v l IH].
  - by rewrite list_to_set_nil, size_empty.
  - rewrite list_to_set_cons. simpl.
    rewrite size_union_alt, size_singleton.
    assert (size (list_to_set (C:=gset (option Z)) l ∖ {[v]})
            ≤ size (list_to_set (C:=gset (option Z)) l))%nat as Hsz.
    { apply subseteq_size. apply subseteq_difference_l. done. }
    lia.
Qed.

Lemma semitone_set_size_le (notes : list string) :
  (size (semitone_set notes) ≤ length notes)%nat.
Proof.
  unfold semitone_set, cleaned_notes.
  etrans; [apply size_list_to_set_le|]. by rewrite !length_fmap.
Qed.

(** ** Two-note inputs *)

Lemma special_cases_pair (a b : Z) (root : string) :
  semitone_to_note (Some a) = Return root →
  special_cases [Some a; Some b] = Return (two_note_label root ((b - a) mod 12)).
Proof.
  intros Hroot. unfold special_cases, two_note_label.
  rewrite bool_decide_eq_true_2 by done.
  change (py_index [Some a; Some b] 1) with (Return (Some b)).
  change (py_index [Some a; Some b] 0) with (Return (Some a)).
  rewrite !bind_Return. unfold py_sub. rewrite bind_Return, Hroot, bind_Return.
  by repeat case_match.
Qed.

(** C7. When every token converts and exactly two distinct semitone values
    result, the sorted pitch set is [[a; b]] with [a < b], the catalogue is
    not consulted, and the label is decided by [(b - a) mod 12] with [a] as
    root: 7 gives ["<root> 5"], 4 gives ["<root> (no fifth)"], 3 gives
    ["<root> Minor (no fifth)"], anything else ["Unknown"]. *)
Theorem guess_chord_two_notes :
  (∀ notes : list string,
     Forall (fun t => is_Some (note_to_semitone (split_paren_head t))) notes →
     size (semitone_set notes) = 2%nat →
     ∃ (a b : Z) (root : string),
       semitones_of notes = Return [Some a; Some b]
       ∧ a < b
       ∧ semitone_to_note (Some a) = Return root
       ∧ guess_chord notes = Return (two_note_label root ((b - a) mod 12)))
  ∧ guess_chord ["C"; "G"]%string = Return "C 5"%string.
Proof.
  split; [|by vm_compute].
  intros notes Hall Hsize.
  destruct (semitone_set_ints notes Hall) as (zs & Hzs & Hnd).
  assert (Hlen : length (sorted_ints zs) = 2%nat).
  { rewrite length_sorted_ints, <- (length_fmap Some), <- Hzs. exact Hsize. }
  pose proof (sorted_ints_strict zs Hnd) as Hsorted.
  destruct (sorted_ints zs) as [|a [|b [|c S]]] eqn:ES; simplify_eq/=.
  apply StronglySorted_inv in Hsorted as [_ Hab].
  apply Forall_cons in Hab as [Hab _].
  destruct (semitone_to_note_total a) as (root & Hroot & _).
  assert (Hsem : semitones_of notes = Return [Some a; Some b]).
  { unfold semitones_of. by rewrite Hzs, py_sorted_ints, ES. }
  exists a, b, root. repeat split; [done..|].
  pose proof (semitone_set_size_le notes) as Hle.
  rewrite guess_chord_two_or_more by lia.
  fold (semitones_of notes). rewrite Hsem.
  change [Some a; Some b] with (Some <$> [a; b]).
  rewrite (try_roots_short [a; b] [a; b]) by (simpl; lia).
  rewrite bind_Return. by apply special_cases_pair.
Qed.

Lemma guess_chord_two_notes_witness :
  ∃ (a b : Z) (root : string),
    semitones_of ["E"; "C"; "E"]%string = Return [Some a; Some b]
    ∧ a < b
    ∧ semitone_to_note (Some a) = Return root
    ∧ guess_chord ["E"; "C"; "E"]%string
      = Return (two_note_label root ((b - a) mod 12)).
Proof.
  apply (proj1 guess_chord_two_notes ["E"; "C"; "E"]%string).
  - repeat constructor; by eexists; vm_compute.
  - by vm_compute.
Defined.

(** ** The catalogue search *)

Lemma find_app {A : Type} (p : A → bool) (l1 l2 : list A) :
  find p (l1 ++ l2) = match find p l1 with
                      | Some x => Some x
                      | None => find p l2
                      end.
Proof. induction l1 as [|x l1 IH]; [done|]. simpl. by destruct (p x). Qed.

Lemma find_fmap {A B : Type} (p : B → bool) (f : A → B) (l : list A) :
  find p (f <$> l) = f <$> find (fun x => p (f x)) l.
Proof. induction l as [|x l IH]; [done|]. csimpl. by destruct (p (f x)). Qed.

(** The inner loop returns the label of the first entry that fits. *)
Lemma match_pattern_find (sig : list Z) (items : list (string * list Z)) :
  (3 ≤ length sig)%nat →
  match_pattern sig items = fst <$> find (fun e => bool_decide (fits sig e)) items.
Proof.
  intros Hlen. induction items as [|[ty pat] items IH]; [done|].
  simpl. rewrite (bool_decide_eq_true_2 (3 ≤ length sig)%nat) by done.
  rewrite andb_true_l.
  rewrite (bool_decide_ext (sig = take (length sig) pat) (fits sig (ty, pat)))
    by (unfold fits; simpl; split; congruence).
  by destruct (bool_decide (fits sig (ty, pat))).
Qed.

(** The root loop, restarted at any point of the list of roots, returns the
    first fitting pair among the remaining candidates. *)
Lemma try_roots_find (S R : list Z) :
  (3 ≤ length S)%nat →
  try_roots (Some <$> S) (Some <$> R) =
    match find (fun c => bool_decide (fits (signature S c.1) c.2)) (candidates R) with
    | Some (r, (chord_type, _)) =>
        root_note ← semitone_to_note (Some r);
        Return (Some (root_note +:+ " " +:+ chord_type))
    | None => Return None
    end.
Proof.
  intros Hlen. induction R as [|r R IH]; [done|].
  rewrite fmap_cons, try_roots_cons, intervals_of_ints, bind_Return.
  rewrite match_pattern_find by (by rewrite length_signature).
  change (candidates (r :: R))
    with (((fun entry => (r, entry)) <$> chord_intervals) ++ candidates R).
  rewrite find_app, find_fmap.
  change (find (fun x => bool_decide (fits (signature S (r, x).1) (r, x).2))
               chord_intervals)
    with (find (fun e => bool_decide (fits (signature S r) e)) chord_intervals).
  destruct (find (fun e => bool_decide (fits (signature S r) e)) chord_intervals)
    as [[ty pat]|]; [done|].
  exact IH.
Qed.

Lemma py_sorted_ints_inv (l : list (option Z)) (S : list Z) :
  py_sorted l = Return (Some <$> S) →
  ∃ zs, l = Some <$> zs ∧ S = sorted_ints zs.
Proof.
  destruct l as [|x [|y l]]; intros Hl.
  - exists []. destruct S; by simplify_eq/=.
  - destruct S as [|z [|z' S]]; simplify_eq/=. by exists [z].
  - unfold py_sorted in Hl.
    destruct (all_ints (x :: y :: l)) as [zs|] eqn:E; [|done].
    exists zs. split; [by apply all_ints_Some|].
    symmetry. apply (inj (fmap Some)). congruence.
Qed.

(** The pitch set is strictly ascending. *)
Lemma semitones_of_ints (notes : list string) (S : list Z) :
  semitones_of notes = Return (Some <$> S) →
  StronglySorted Z.lt S ∧ (length S ≤ length notes)%nat.
Proof.
  intros Hsem. apply py_sorted_ints_inv in Hsem as (zs & Hzs & ->).
  split.
  - apply sorted_ints_strict, (NoDup_fmap Some). rewrite <- Hzs.
    apply NoDup_elements.
  - rewrite length_sorted_ints, <- (length_fmap Some), <- Hzs.
    apply semitone_set_size_le.
Qed.

Lemma special_cases_not_two (semitones : list (option Z)) :
  length semitones ≠ 2%nat → special_cases semitones = Return "Unknown"%string.
Proof. intros Hlen. unfold special_cases. by rewrite bool_decide_eq_false_2. Qed.

(** C6. For a pitch set [S] of three or more semitones, taken in ascending
    order, the result is decided by the first (root, catalogue entry) pair,
    roots first and entries in declaration order, whose interval list cut to
    the length of the signature is the signature: its root name and chord
    type make the label; without such a pair the result is ["Unknown"]. *)
Theorem guess_chord_first_match :
  (∀ (notes : list string) (S : list Z),
     semitones_of notes = Return (Some <$> S) →
     (3 ≤ length S)%nat →
     StronglySorted Z.lt S
     ∧ match first_match S with
       | Some (r, (chord_type, _)) =>
           ∃ root, semitone_to_note (Some r) = Return root
                   ∧ guess_chord notes = Return (root +:+ " " +:+ chord_type)
       | None => guess_chord notes = Return "Unknown"%string
       end)
  ∧ guess_chord ["C"; "E"; "G"; "Bb"]%string = Return "C 7"%string.
Proof.
  split; [|by vm_compute].
  intros notes S Hsem Hlen.
  destruct (semitones_of_ints notes S Hsem) as [Hsorted Hnotes].
  split; [done|].
  assert (Hguess : guess_chord notes =
            found ← try_roots (Some <$> S) (Some <$> S);
            match found with
            | Some label => Return label
            | None => special_cases (Some <$> S)
            end).
  { rewrite guess_chord_two_or_more by lia.
    fold (semitones_of notes). by rewrite Hsem. }
  rewrite try_roots_find in Hguess by done.
  fold (first_match S) in Hguess.
  destruct (first_match S) as [[r [chord_type pat]]|].
  - destruct (semitone_to_note_total r) as (root & Hroot & _).
    exists root. split; [done|]. by rewrite Hguess, Hroot.
  - rewrite Hguess, bind_Return.
    apply special_cases_not_two. rewrite length_fmap. lia.
Qed.

Lemma guess_chord_first_match_witness :
  StronglySorted Z.lt [0; 4; 7; 10]
  ∧ match first_match [0; 4; 7; 10] with
    | Some (r, (chord_type, _)) =>
        ∃ root, semitone_to_note (Some r) = Return root
                ∧ guess_chord ["Bb"; "G"; "E"; "C"]%string
                  = Return (root +:+ " " +:+ chord_type)
    | None => guess_chord ["Bb"; "G"; "E"; "C"]%string = Return "Unknown"%string
    end.
Proof.
  apply (proj1 guess_chord_first_match ["Bb"; "G"; "E"; "C"]%string [0; 4; 7; 10]).
  - by vm_compute.
  - simpl; lia.
Defined.

(** ** The extended catalogue entries *)

Lemma extended_entries_labels :
  extended_entries.*1 = ["9"; "m9"; "Maj9"]%string.
Proof. reflexivity. Qed.

Lemma intervals_of_offsets (root : option Z) (semitones : list (option Z))
    (intervals : list Z) :
  intervals_of root semitones = Return intervals → Forall is_offset intervals.
Proof.
  unfold intervals_of.
  destruct (for_each _ semitones) as [ds|e] eqn:E; [|done].
  rewrite bind_Return. intros [= <-].
  unfold sorted_ints. rewrite merge_sort_Permutation.
  revert ds E. induction semitones as [|s semitones IH]; intros ds E.
  - simplify_eq/=. constructor.
  - simpl in E. destruct (py_sub s root) as [d|] eqn:Ed; [|done].
    rewrite !bind_Return in E.
    destruct (for_each _ semitones) as [ds'|] eqn:E'; [|done].
    rewrite bind_Return in E. simplify_eq.
    constructor; [|by apply IH].
    apply Z.mod_pos_bound. lia.
Qed.

(** Whenever an extended entry fits a signature, an entry declared before it
    fits as well: cut to three or four intervals it coincides with a triad
    or a seventh chord, and at full length it holds 14, which is no offset. *)
Lemma extended_entry_shadowed (sig : list Z) (e : string * list Z) :
  e ∈ extended_entries → (3 ≤ length sig)%nat → Forall is_offset sig →
  fits sig e → ∃ e', e' ∈ octave_entries ∧ fits sig e'.
Proof.
  intros He Hlen Hoff Hfit.
  destruct sig as [|a [|b [|c [|d [|x sig]]]]]; simpl in Hlen; try lia.
  - repeat (apply elem_of_cons in He as [->|He]);
      [..|by apply elem_of_nil in He]; unfold fits in Hfit; simplify_eq/=.
    + exists ("Major"%string, [0; 4; 7]). split; [|done]. set_solver.
    + exists ("minor"%string, [0; 3; 7]). split; [|done]. set_solver.
    + exists ("Major"%string, [0; 4; 7]). split; [|done]. set_solver.
  - repeat (apply elem_of_cons in He as [->|He]);
      [..|by apply elem_of_nil in He]; unfold fits in Hfit; simplify_eq/=.
    + exists ("7"%string, [0; 4; 7; 10]). split; [|done]. set_solver.
    + exists ("m7"%string, [0; 3; 7; 10]). split; [|done]. set_solver.
    + exists ("Maj7"%string, [0; 4; 7; 11]). split; [|done]. set_solver.
  - exfalso.
    do 4 (apply Forall_cons in Hoff as [_ Hoff]).
    apply Forall_cons in Hoff as [Hx _]. unfold is_offset in Hx.
    repeat (apply elem_of_cons in He as [->|He]);
      [..|by apply elem_of_nil in He]; unfold fits in Hfit; simplify_eq/=; lia.
Qed.

(** The inner loop only ever returns the label of an entry within one
    octave. *)
Lemma match_pattern_octave (sig : list Z) (chord_type : string) :
  Forall is_offset sig →
  match_pattern sig chord_intervals = Some chord_type →
  chord_type ∈ octave_entries.*1.
Proof.
  intros Hoff Hmatch.
  destruct (decide (3 ≤ length sig)%nat) as [Hlen|Hlen];
    [|by rewrite match_pattern_short in Hmatch by lia].
  rewrite match_pattern_find in Hmatch by done.
  change chord_intervals with (octave_entries ++ extended_entries) in Hmatch.
  rewrite find_app in Hmatch.
  destruct (find _ octave_entries) as [e|] eqn:Eoct.
  - apply find_some in Eoct as [Hin _].
    change (Some e.1 = Some chord_type) in Hmatch. injection Hmatch as <-.
    by apply list_elem_of_fmap_2, list_elem_of_In.
  - exfalso.
    destruct (find _ extended_entries) as [e|] eqn:Eext; [|done].
    apply find_some in Eext as [Hin Hfit].
    apply list_elem_of_In in Hin. apply bool_decide_eq_true in Hfit.
    destruct (extended_entry_shadowed sig e Hin Hlen Hoff Hfit) as (e' & Hin' & Hfit').
    apply list_elem_of_In in Hin'.
    apply (find_none _ _ Eoct) in Hin'.
    by apply bool_decide_eq_false in Hin'.
Qed.

Lemma string_last_app (x suffix : string) :
  suffix ≠ EmptyString → string_last (x +:+ suffix) = string_last suffix.
Proof.
  intros Hne. induction x as [|c x IH]; [done|].
  change (string_last (String c (x +:+ suffix)) = string_last suffix).
  destruct (x +:+ suffix) eqn:E; [|exact IH].
  destruct x; simpl in E; [by subst|done].
Qed.

Lemma try_roots_label (semitones roots : list (option Z)) (label : string) :
  try_roots semitones roots = Return (Some label) → ¬ ends_in_9 label.
Proof.
  induction roots as [|root roots IH]; [done|].
  rewrite try_roots_cons.
  destruct (intervals_of root semitones) as [intervals|] eqn:Eint; [|done].
  rewrite bind_Return.
  destruct (match_pattern intervals chord_intervals) as [chord_type|] eqn:Ematch;
    [|exact IH].
  destruct (semitone_to_note root) as [root_note|]; [|done].
  rewrite bind_Return. intros [= <-].
  apply intervals_of_offsets in Eint.
  pose proof (match_pattern_octave _ _ Eint Ematch) as Hty.
  unfold ends_in_9.
  repeat (apply elem_of_cons in Hty as [->|Hty]);
    [..|by apply elem_of_nil in Hty];
    by rewrite string_last_app.
Qed.

Lemma special_cases_label (semitones : list (option Z)) (label : string) :
  special_cases semitones = Return label → ¬ ends_in_9 label.
Proof.
  unfold special_cases, ends_in_9. case_bool_decide; [|by intros [= <-]].
  destruct (py_index semitones 1) as [s1|]; [|done]. rewrite bind_Return.
  destruct (py_index semitones 0) as [s0|]; [|done]. rewrite bind_Return.
  destruct (py_sub s1 s0) as [d|]; [|done]. rewrite bind_Return.
  destruct (semitone_to_note s0) as [root_note|]; [|done]. rewrite bind_Return.
  repeat case_match; intros [= <-]; by rewrite ?string_last_app.
Qed.

Lemma guess_chord_label (notes : list string) (label : string) :
  guess_chord notes = Return label → ¬ ends_in_9 label.
Proof.
  destruct notes as [|a [|b notes]].
  - by intros [= <-].
  - intros [= <-]. unfold ends_in_9. by rewrite string_last_app.
  - rewrite guess_chord_two_or_more by (simpl; lia).
    destruct (py_sorted _) as [semitones|[]]; try by intros [= <-].
    destruct (try_roots semitones semitones) as [[found|]|] eqn:Eroots;
      rewrite ?bind_Return; [|apply special_cases_label|done].
    intros [= <-]. by eapply try_roots_label.
Qed.

(** C8. No result of [guess_chord] is a root name followed by the chord type
    ["9"], ["m9"] or ["Maj9"]: offsets are residues modulo 12, so an extended
    entry never fits at full length, and cut shorter it is shadowed by an
    entry declared before it. *)
Theorem guess_chord_never_ninth (notes : list string) (root : string) :
  guess_chord notes ≠ Return (root +:+ " 9")
  ∧ guess_chord notes ≠ Return (root +:+ " m9")
  ∧ guess_chord notes ≠ Return (root +:+ " Maj9").
Proof.
  repeat split; intros Hg; apply guess_chord_label in Hg; apply Hg;
    unfold ends_in_9; by rewrite string_last_app.
Qed.

Example format_sharp :
  tabs_to_notes.format_note_with_enharmonic "G#" = "G#(Ab)"%string.
Proof. by vm_compute. Qed.

Example format_label :
  tabs_to_notes.format_chord_with_enharmonic "F#   minor  x"
  = Return "F#(Gb) minor x"%string.
Proof. by vm_compute. Qed.

Example split_words :
  py_split "  ab  c d " = ["ab"; "c"; "d"]%string.
Proof. by vm_compute. Qed.

(** ** The pitch model on arbitrary strings *)

Lemma enharmonic_lookup_Some (x y : string) :
  enharmonic_map !! x = Some y → (x, y) ∈ enharmonic_items.
Proof.
  intros H. apply (elem_of_list_to_map_2 (M:=gmap string)). exact H.
Qed.

Lemma semitone_lookup_Some (x : string) (z : Z) :
  semitone_map !! x = Some z → (x, z) ∈ semitone_items.
Proof.
  intros H. apply (elem_of_list_to_map_2 (M:=gmap string)). exact H.
Qed.

(** Case analysis on membership in a list given in full. *)
Ltac elem_cases H :=
  repeat (apply elem_of_cons in H as [H|H]; [simplify_eq|]);
  try (by apply elem_of_nil in H).

Lemma normalize_note_twice (x : string) :
  normalize_note (normalize_note x) = x.
Proof.
  unfold normalize_note at 2.
  destruct (enharmonic_map !! x) as [y|] eqn:E; simpl.
  - apply enharmonic_lookup_Some in E. elem_cases E; by vm_compute.
  - unfold normalize_note. by rewrite E.
Qed.

(** X1. [normalize_note] undoes itself on every string, in the table or
    not, and so sends different strings to different strings. *)
Theorem normalize_note_involutive (x y : string) :
  normalize_note (normalize_note x) = x
  ∧ (normalize_note x = normalize_note y → x = y).
Proof.
  split; [apply normalize_note_twice|].
  intros Heq. rewrite <- (normalize_note_twice x), <- (normalize_note_twice y).
  by rewrite Heq.
Qed.

Lemma normalize_note_involutive_witness :
  normalize_note (normalize_note "Gb") = "Gb"%string
  ∧ (normalize_note "Gb" = normalize_note "Gb" → "Gb"%string = "Gb"%string).
Proof. apply (normalize_note_involutive "Gb" "Gb"). Defined.

Lemma note_to_semitone_Some_inv (note : string) (z : Z) :
  note_to_semitone note = Some z → (note, z) ∈ accepted_semitones.
Proof.
  unfold note_to_semitone, normalize_note.
  destruct (enharmonic_map !! note) as [y|] eqn:E; simpl.
  - apply enharmonic_lookup_Some in E.
    elem_cases E; vm_compute; intros [= <-];
      apply list_elem_of_In; simpl; tauto.
  - intros Hz. apply semitone_lookup_Some in Hz.
    elem_cases Hz; try (by vm_compute in E);
      apply list_elem_of_In; simpl; tauto.
Qed.

(** X2. [note_to_semitone] has a value exactly on the seven natural names
    and the five flat spellings, and the value is the pitch class of the
    name; on every other string, the sharp spellings included, it is
    [None]. *)
Theorem note_to_semitone_accepted (note : string) (z : Z) :
  note_to_semitone note = Some z ↔ (note, z) ∈ accepted_semitones.
Proof.
  split; [apply note_to_semitone_Some_inv|].
  intros H. elem_cases H; by vm_compute.
Qed.

Lemma semitone_to_note_lookup (z : Z) :
  semitone_to_note (Some z)
  = match notes_table !! Z.to_nat (z mod 12) with
    | Some name => Return name
    | None => Raise IndexError
    end.
Proof.
  pose proof (Z.mod_pos_bound z 12 eq_refl) as Hz.
  assert ((z mod 12 <? 0) = false) as Hlt by lia.
  unfold semitone_to_note, py_mod12, py_index. rewrite bind_Return.
  cbv zeta. by rewrite !Hlt.
Qed.

Lemma residue_cases (z : Z) :
  z mod 12 ∈ [0; 1; 2; 3; 4; 5; 6; 7; 8; 9; 10; 11].
Proof.
  pose proof (Z.mod_pos_bound z 12 eq_refl) as Hz.
  assert (z mod 12 = 0 ∨ z mod 12 = 1 ∨ z mod 12 = 2 ∨ z mod 12 = 3
          ∨ z mod 12 = 4 ∨ z mod 12 = 5 ∨ z mod 12 = 6 ∨ z mod 12 = 7
          ∨ z mod 12 = 8 ∨ z mod 12 = 9 ∨ z mod 12 = 10 ∨ z mod 12 = 11)
    as H by lia.
  apply list_elem_of_In. simpl. lia.
Qed.

(** X3. Two integers have the same note name exactly when they are congruent
    modulo 12; negative integers included. *)
Theorem semitone_to_note_congruent (a b : Z) :
  semitone_to_note (Some a) = semitone_to_note (Some b) ↔ a mod 12 = b mod 12.
Proof.
  rewrite !semitone_to_note_lookup. split; [|by intros ->].
  pose proof (residue_cases a) as Ha. pose proof (residue_cases b) as Hb.
  intros Heq.
  elem_cases Ha; match goal with H : a mod 12 = _ |- _ => rewrite H in * end;
    elem_cases Hb; match goal with H : b mod 12 = _ |- _ => rewrite H in * end;
    done.
Qed.

(** X4. Converting a name to a semitone and back gives the normalised
    spelling of the name: a natural name comes back as itself, a flat as its
    sharp. *)
Theorem semitone_to_note_after_note_to_semitone (note : string) (z : Z) :
  note_to_semitone note = Some z →
  semitone_to_note (note_to_semitone note) = Return (normalize_note note)
  ∧ 0 ≤ z < 12.
Proof.
  intros Hz. rewrite Hz.
  pose proof (note_to_semitone_Some_inv note z Hz) as Hin.
  elem_cases Hin; split; (by vm_compute) || lia.
Qed.

Lemma semitone_to_note_after_note_to_semitone_witness :
  semitone_to_note (note_to_semitone "Bb") = Return (normalize_note "Bb")
  ∧ 0 ≤ 10 < 12.
Proof.
  apply (semitone_to_note_after_note_to_semitone "Bb" 10). by vm_compute.
Defined.

(** X5. From a semitone to the engine through the caller: the name of any
    integer, annotated for display, stripped and normalised by the main
    program, and stripped again by the engine, converts to the residue of
    that integer. *)
Theorem semitone_through_caller (z : Z) :
  ∃ raw_note,
    semitone_to_note (Some z) = Return raw_note
    ∧ note_to_semitone
        (split_paren_head
           (normalize_note
              (split_paren_head
                 (tabs_to_notes.format_note_with_enharmonic raw_note))))
      = Some (z mod 12).
Proof.
  rewrite semitone_to_note_lookup.
  pose proof (residue_cases z) as Hz.
  elem_cases Hz; match goal with H : z mod 12 = _ |- _ => rewrite H end;
    eexists; (split; [reflexivity|by vm_compute]).
Qed.

(** ** Invariants of the pitch set and of the interval signature *)

(** X6. When every token converts, the [try] block succeeds with a strictly
    ascending list of integers within [0, 11] that holds exactly the
    semitone values of the tokens. *)
Theorem semitones_of_converting (notes : list string) :
  Forall (fun t => is_Some (note_to_semitone (split_paren_head t))) notes →
  ∃ S : list Z,
    semitones_of notes = Return (Some <$> S)
    ∧ StronglySorted Z.lt S
    ∧ Forall is_offset S
    ∧ ∀ z, z ∈ S ↔ ∃ t, t ∈ notes ∧ note_to_semitone (split_paren_head t) = Some z.
Proof.
  intros Hall. destruct (semitone_set_ints notes Hall) as (zs & Hzs & Hnd).
  assert (Hmem : ∀ z, z ∈ sorted_ints zs ↔
            ∃ t, t ∈ notes ∧ note_to_semitone (split_paren_head t) = Some z).
  { intros z. unfold sorted_ints. rewrite merge_sort_Permutation.
    rewrite <- semitone_set_elem, <- elem_of_elements, Hzs.
    by rewrite (list_elem_of_fmap_inj Some). }
  exists (sorted_ints zs). repeat split.
  - unfold semitones_of. by rewrite Hzs, py_sorted_ints.
  - by apply sorted_ints_strict.
  - apply Forall_forall. intros z Hz. apply Hmem in Hz as (t & _ & Ht).
    apply note_to_semitone_Some_inv in Ht. unfold is_offset.
    elem_cases Ht; lia.
  - apply Hmem.
  - apply Hmem.
Qed.

Lemma semitones_of_converting_witness :
  ∃ S : list Z,
    semitones_of ["G"; "Eb(D#)"; "C"; "G"]%string = Return (Some <$> S)
    ∧ StronglySorted Z.lt S
    ∧ Forall is_offset S
    ∧ ∀ z, z ∈ S ↔ ∃ t, t ∈ ["G"; "Eb(D#)"; "C"; "G"]%string
                        ∧ note_to_semitone (split_paren_head t) = Some z.
Proof.
  apply (semitones_of_converting ["G"; "Eb(D#)"; "C"; "G"]%string).
  repeat constructor; by eexists; vm_compute.
Defined.

(** X7. For a root taken from the pitch set, the interval signature is
    computed without an exception, has one offset per pitch, each within
    [0, 11], is in ascending order and begins with 0. *)
Theorem intervals_of_root (S : list Z) (r : Z) :
  r ∈ S →
  ∃ intervals : list Z,
    intervals_of (Some r) (Some <$> S) = Return intervals
    ∧ intervals !! 0%nat = Some 0
    ∧ StronglySorted Z.le intervals
    ∧ length intervals = length S
    ∧ Forall is_offset intervals.
Proof.
  intros Hr. exists (signature S r).
  pose proof (intervals_of_ints r S) as Hint.
  pose proof (intervals_of_offsets _ _ _ Hint) as Hoff.
  assert (Hsorted : StronglySorted Z.le (signature S r))
    by (apply StronglySorted_merge_sort; apply _).
  assert (H0 : 0 ∈ signature S r).
  { unfold signature, sorted_ints. rewrite merge_sort_Permutation.
    apply list_elem_of_fmap. exists r. split; [|done].
    by rewrite Z.sub_diag. }
  repeat split; [done| |done|apply length_signature|done].
  destruct (signature S r) as [|x ivs]; [by apply elem_of_nil in H0|].
  simpl. f_equal.
  apply Forall_cons in Hoff as [Hx _]. unfold is_offset in Hx.
  apply StronglySorted_inv in Hsorted as [_ Hle].
  apply elem_of_cons in H0 as [->|H0]; [done|].
  rewrite Forall_forall in Hle. specialize (Hle 0 H0). lia.
Qed.

Lemma intervals_of_root_witness :
  ∃ intervals : list Z,
    intervals_of (Some 7) (Some <$> [0; 4; 7]) = Return intervals
    ∧ intervals !! 0%nat = Some 0
    ∧ StronglySorted Z.le intervals
    ∧ length intervals = length [0; 4; 7]
    ∧ Forall is_offset intervals.
Proof.
  apply (intervals_of_root [0; 4; 7] 7).
  apply list_elem_of_In. simpl. lia.
Defined.

(** ** Where the engine raises *)

Lemma calculate_intervals_nonempty (notes : list string) :
  notes ≠ [] →
  calculate_intervals notes =
    match py_sorted (elements (semitone_set notes)) with
    | Raise TypeError | Raise KeyError => Return "Unknown"%string
    | Raise e => Raise e
    | Return semitones =>
        found ← try_roots semitones semitones;
        match found with
        | Some label => Return label
        | None => special_cases semitones
        end
    end.
Proof. by destruct notes. Qed.

(** Tokens that all convert to the same value leave a one-element set. *)
Lemma semitone_set_constant (notes : list string) (v : option Z) :
  notes ≠ [] →
  Forall (fun t => note_to_semitone (split_paren_head t) = v) notes →
  elements (semitone_set notes) = [v].
Proof.
  intros Hne Hall.
  assert (semitone_set notes = {[v]}) as ->; [|apply elements_singleton].
  apply set_eq. intros w. rewrite semitone_set_elem, elem_of_singleton. split.
  - intros (t & Ht & <-). rewrite Forall_forall in Hall. by apply Hall.
  - intros ->. destruct notes as [|t notes]; [done|].
    exists t. split; [by left|]. by apply Forall_cons in Hall as [? _].
Qed.

(** On integers the root loop and the special cases return. *)
Lemma try_roots_ints_total (S R : list Z) :
  ∃ found, try_roots (Some <$> S) (Some <$> R) = Return found.
Proof.
  induction R as [|r R IH]; [by eexists|].
  rewrite fmap_cons, try_roots_cons, intervals_of_ints, bind_Return.
  destruct (match_pattern _ chord_intervals) as [chord_type|]; [|exact IH].
  destruct (semitone_to_note_total r) as (root & -> & _). by eexists.
Qed.

Lemma special_cases_ints_total (S : list Z) :
  ∃ label, special_cases (Some <$> S) = Return label.
Proof.
  destruct (decide (length S = 2%nat)) as [Hlen|Hlen].
  - destruct S as [|a [|b [|c S]]]; simplify_eq/=.
    destruct (semitone_to_note_total a) as (root & Hroot & _).
    eexists. by apply special_cases_pair.
  - eexists. apply special_cases_not_two. by rewrite length_fmap.
Qed.

(** X8. [guess_chord] raises exactly on the inputs of two or more tokens
    none of which converts, and what it raises is [TypeError]; on every other
    list of strings it returns a label. *)
Theorem guess_chord_raises_iff (notes : list string) (e : exn) :
  guess_chord notes = Raise e ↔
  e = TypeError
  ∧ (2 ≤ length notes)%nat
  ∧ Forall (fun t => note_to_semitone (split_paren_head t) = None) notes.
Proof.
  split.
  - intros Hraise.
    assert (Hlen : (2 ≤ length notes)%nat)
      by (destruct notes as [|a [|b notes]]; simpl; [done..|lia]).
    rewrite guess_chord_two_or_more in Hraise by done.
    destruct (decide (Forall (fun t => is_Some (note_to_semitone (split_paren_head t)))
                             notes)) as [Hall|Hsome].
    { exfalso. destruct (semitone_set_ints notes Hall) as (zs & Hzs & _).
      rewrite Hzs, py_sorted_ints in Hraise.
      destruct (try_roots_ints_total (sorted_ints zs) (sorted_ints zs)) as [found Hf].
      rewrite Hf, bind_Return in Hraise. destruct found as [label|]; [done|].
      destruct (special_cases_ints_total (sorted_ints zs)) as [label Hl].
      by rewrite Hl in Hraise. }
    apply not_Forall_Exists in Hsome; [|apply _].
    apply Exists_exists in Hsome as (t1 & Ht1 & Hbad).
    destruct (decide (Forall (fun t => note_to_semitone (split_paren_head t) = None)
                             notes)) as [Hnone|Hmixed].
    + assert (Hne : notes ≠ []) by (intros ->; simpl in Hlen; lia).
      rewrite (semitone_set_constant notes None Hne Hnone) in Hraise.
      vm_compute in Hraise. by simplify_eq.
    + exfalso. apply not_Forall_Exists in Hmixed; [|apply _].
      apply Exists_exists in Hmixed as (t2 & Ht2 & Hgood).
      destruct (note_to_semitone (split_paren_head t2)) as [z|] eqn:E2; [|done].
      rewrite (py_sorted_mixed _ z) in Hraise; [done| |].
      * apply elem_of_elements, semitone_set_elem. exists t1. split; [done|].
        destruct (note_to_semitone (split_paren_head t1)) eqn:E1; [|done].
        exfalso. apply Hbad. by eexists.
      * apply elem_of_elements, semitone_set_elem. eauto.
  - intros (-> & Hlen & Hnone).
    assert (Hne : notes ≠ []) by (intros ->; simpl in Hlen; lia).
    rewrite guess_chord_two_or_more by done.
    rewrite (semitone_set_constant notes None Hne Hnone).
    by vm_compute.
Qed.

(** X9. Called on tokens that all convert to one value, a single token in
    particular, [calculate_intervals] returns ["Unknown"] when that value is
    an integer and raises [TypeError] when it is [None]. *)
Theorem calculate_intervals_one_pitch (notes : list string) (v : option Z) :
  notes ≠ [] →
  Forall (fun t => note_to_semitone (split_paren_head t) = v) notes →
  calculate_intervals notes
  = match v with
    | Some _ => Return "Unknown"%string
    | None => Raise TypeError
    end.
Proof.
  intros Hne Hall. rewrite calculate_intervals_nonempty by done.
  rewrite (semitone_set_constant notes v) by done.
  destruct v as [z|]; [|by vm_compute].
  assert (Hloop : try_roots [Some z] [Some z] = Return None)
    by (apply (try_roots_short [z] [z]); simpl; lia).
  unfold py_sorted. rewrite Hloop, bind_Return.
  by apply special_cases_not_two.
Qed.

Lemma calculate_intervals_one_pitch_witness :
  calculate_intervals ["C"; "C(x)"]%string = Return "Unknown"%string
  ∧ calculate_intervals ["H"%string] = Raise TypeError.
Proof.
  split.
  - apply (calculate_intervals_one_pitch ["C"; "C(x)"]%string (Some 0)); [done|].
    repeat constructor; by vm_compute.
  - apply (calculate_intervals_one_pitch ["H"%string] None); [done|].
    repeat constructor; by vm_compute.
Defined.

Lemma guess_chord_raises_iff_witness :
  guess_chord ["H"; "C#"]%string = Raise TypeError.
Proof.
  apply (proj2 (guess_chord_raises_iff ["H"; "C#"]%string TypeError)).
  split; [done|]. split; [simpl; lia|].
  repeat constructor; by vm_compute.
Defined.

(** ** The labels the engine returns *)

Lemma py_sorted_elem (l l' : list (option Z)) (v : option Z) :
  py_sorted l = Return l' → v ∈ l' → v ∈ l.
Proof.
  destruct l as [|x [|y l]]; try (by intros [= <-]).
  unfold py_sorted.
  destruct (all_ints (x :: y :: l)) as [zs|] eqn:E; [|done].
  intros [= <-]. apply all_ints_Some in E. rewrite E.
  intros (z & -> & Hz)%list_elem_of_fmap.
  apply list_elem_of_fmap_2. revert Hz. unfold sorted_ints.
  by rewrite merge_sort_Permutation.
Qed.

Lemma semitone_to_note_in_table (v : option Z) (root : string) :
  semitone_to_note v = Return root → root ∈ notes_table.
Proof.
  destruct v as [z|]; [|done].
  destruct (semitone_to_note_total z) as (name & -> & Hin). by intros [= <-].
Qed.

Lemma try_roots_shape (semitones roots : list (option Z)) (label : string) :
  try_roots semitones roots = Return (Some label) →
  ∃ v root chord_type,
    v ∈ roots ∧ semitone_to_note v = Return root
    ∧ chord_type ∈ octave_entries.*1
    ∧ label = root +:+ " " +:+ chord_type.
Proof.
  induction roots as [|r roots IH]; [done|].
  rewrite try_roots_cons.
  destruct (intervals_of r semitones) as [intervals|] eqn:Eint; [|done].
  rewrite bind_Return.
  destruct (match_pattern intervals chord_intervals) as [chord_type|] eqn:Ematch.
  - destruct (semitone_to_note r) as [root|] eqn:Eroot; [|done].
    rewrite bind_Return. intros [= <-].
    exists r, root, chord_type. split_and!; [by left|done| |done].
    eapply match_pattern_octave; [|done]. by eapply intervals_of_offsets.
  - intros (v & root & ty & Hv & ?)%IH. exists v, root, ty. split; [by right|done].
Qed.

Lemma special_cases_shape (semitones : list (option Z)) (label : string) :
  special_cases semitones = Return label →
  label = "Unknown"%string
  ∨ ∃ v root chord_type,
      v ∈ semitones ∧ semitone_to_note v = Return root
      ∧ chord_type ∈ two_note_types
      ∧ label = root +:+ " " +:+ chord_type.
Proof.
  unfold special_cases. case_bool_decide as Hlen; [|intros [= <-]; by left].
  destruct semitones as [|s0 [|s1 [|s2 semitones]]]; try (by simpl in Hlen).
  change (py_index [s0; s1] 1) with (Return s1).
  change (py_index [s0; s1] 0) with (Return s0).
  rewrite !bind_Return.
  destruct (py_sub s1 s0) as [d|]; [|done]. rewrite bind_Return.
  destruct (semitone_to_note s0) as [root|] eqn:Eroot; [|done].
  rewrite bind_Return.
  repeat case_match; intros [= <-]; [right..|by left];
    exists s0, root; eexists; (split_and!; [by left|done| |done]);
    apply list_elem_of_In; simpl; tauto.
Qed.

Lemma guess_chord_shape (notes : list string) (label : string) :
  (2 ≤ length notes)%nat →
  guess_chord notes = Return label →
  label = "Unknown"%string
  ∨ ∃ t root chord_type,
      t ∈ notes
      ∧ semitone_to_note (note_to_semitone (split_paren_head t)) = Return root
      ∧ chord_type ∈ octave_entries.*1 ++ two_note_types
      ∧ label = root +:+ " " +:+ chord_type.
Proof.
  intros Hlen. rewrite guess_chord_two_or_more by done.
  destruct (py_sorted _) as [semitones|e] eqn:Esort;
    [|destruct e; intros [= <-]; by left].
  assert (Hsounded : ∀ v, v ∈ semitones →
            ∃ t, t ∈ notes ∧ note_to_semitone (split_paren_head t) = v).
  { intros v Hv. apply semitone_set_elem, elem_of_elements.
    by eapply py_sorted_elem. }
  destruct (try_roots semitones semitones) as [[found|]|] eqn:Eroots; [| |done];
    rewrite bind_Return.
  - intros [= <-]. right.
    apply try_roots_shape in Eroots as (v & root & ty & Hv & Hroot & Hty & ->).
    destruct (Hsounded v Hv) as (t & Ht & <-).
    exists t, root, ty. split_and!; [done..| |done].
    apply elem_of_app. by left.
  - intros [->|(v & root & ty & Hv & Hroot & Hty & ->)]%special_cases_shape;
      [by left|right].
    destruct (Hsounded v Hv) as (t & Ht & <-).
    exists t, root, ty. split_and!; [done..| |done].
    apply elem_of_app. by right.
Qed.

(** X10. On two or more tokens a returned label is ["Unknown"] or a root
    name, a space and a chord type, where the root is the name of the pitch
    of one of the tokens and the chord type is one of the twelve catalogue
    labels within the octave or one of the three two-note labels. *)
Theorem guess_chord_vocabulary (notes : list string) (label : string) :
  (2 ≤ length notes)%nat →
  guess_chord notes = Return label →
  label = "Unknown"%string
  ∨ ∃ t root chord_type,
      t ∈ notes
      ∧ semitone_to_note (note_to_semitone (split_paren_head t)) = Return root
      ∧ root ∈ notes_table
      ∧ chord_type ∈ octave_entries.*1 ++ two_note_types
      ∧ label = root +:+ " " +:+ chord_type.
Proof.
  intros Hlen Hguess.
  destruct (guess_chord_shape notes label Hlen Hguess)
    as [->|(t & root & ty & Ht & Hroot & Hty & ->)]; [by left|right].
  exists t, root, ty. split_and!; try done.
  by eapply semitone_to_note_in_table.
Qed.

Lemma guess_chord_vocabulary_witness :
  "G# Major"%string = "Unknown"%string
  ∨ ∃ t root chord_type,
      t ∈ ["Ab(G#)"; "C"; "Eb"]%string
      ∧ semitone_to_note (note_to_semitone (split_paren_head t)) = Return root
      ∧ root ∈ notes_table
      ∧ chord_type ∈ octave_entries.*1 ++ two_note_types
      ∧ "G# Major"%string = root +:+ " " +:+ chord_type.
Proof.
  apply (guess_chord_vocabulary ["Ab(G#)"; "C"; "Eb"]%string "G# Major").
  - simpl; lia.
  - by vm_compute.
Defined.

(** ** The engine behind the caller *)

Lemma tabs_enharmonic_lookup_Some (x y : string) :
  tabs_to_notes.enharmonic_map !! x = Some y → (x, y) ∈ enharmonic_items.
Proof.
  intros H. apply (elem_of_list_to_map_2 (M:=gmap string)). exact H.
Qed.

(** Stripping undoes the display annotation. *)
Lemma split_paren_head_format_note (raw_note : string) :
  split_paren_head (tabs_to_notes.format_note_with_enharmonic raw_note)
  = split_paren_head raw_note.
Proof.
  unfold tabs_to_notes.format_note_with_enharmonic.
  destruct (tabs_to_notes.enharmonic_map !! raw_note) as [y|] eqn:E; [|done].
  apply tabs_enharmonic_lookup_Some in E. elem_cases E; by vm_compute.
Qed.

(** X11. Annotating every token with its enharmonic equivalent, as the
    caller does for display, does not change the result on two or more
    tokens. *)
Theorem guess_chord_annotated (notes : list string) :
  (2 ≤ length notes)%nat →
  guess_chord (tabs_to_notes.format_note_with_enharmonic <$> notes)
  = guess_chord notes.
Proof.
  intros Hlen.
  rewrite !guess_chord_two_or_more by (by rewrite ?length_fmap).
  assert (semitone_set (tabs_to_notes.format_note_with_enharmonic <$> notes)
          = semitone_set notes) as ->; [|done].
  unfold semitone_set, cleaned_notes. f_equal.
  rewrite <- !list_fmap_compose. apply list_fmap_ext.
  intros i t _. simpl. by rewrite split_paren_head_format_note.
Qed.

Lemma guess_chord_annotated_witness :
  guess_chord (tabs_to_notes.format_note_with_enharmonic <$> ["Ab"; "C"; "Eb"]%string)
  = guess_chord ["Ab"; "C"; "Eb"]%string.
Proof.
  apply (guess_chord_annotated ["Ab"; "C"; "Eb"]%string). simpl; lia.
Defined.

Lemma note_names_formatted (notes : list (string * Z * string)) :
  tabs_to_notes.note_names notes
  = (fun note => normalize_note (split_paren_head note)) <$> notes.*2.
Proof. unfold tabs_to_notes.note_names. by rewrite <- list_fmap_compose. Qed.

Lemma semitone_to_note_residue (z p : Z) :
  semitone_to_note (Some (z + p)) = semitone_to_note (Some (z mod 12 + p)).
Proof. by rewrite !semitone_to_note_lookup, Z.add_mod_idemp_l. Qed.

Lemma chord_tones_residue (z : Z) (pattern : list Z) :
  chord_tones z pattern = chord_tones (z mod 12) pattern.
Proof.
  unfold chord_tones. induction pattern as [|p pattern IH]; [done|].
  simpl. by rewrite IH, semitone_to_note_residue.
Qed.

(** X12. In every key, the tones of a major, minor, diminished, major
    seventh, dominant seventh or minor sixth chord, collected with their
    display annotation, are named by the engine with their root and type,
    and the main program shows that label with the root annotated. *)
Theorem chord_named_in_every_key
    (z : Z) (chord_type : string) (pattern : list Z)
    (raw_notes : list string) (notes : list (string * Z * string)) :
  (chord_type, pattern) ∈ chord_intervals →
  chord_type ∈ key_independent_types →
  chord_tones z pattern = Return raw_notes →
  notes.*2 = tabs_to_notes.format_note_with_enharmonic <$> raw_notes →
  ∃ root,
    semitone_to_note (Some z) = Return root
    ∧ guess_chord (tabs_to_notes.note_names notes)
      = Return (root +:+ " " +:+ chord_type)
    ∧ tabs_to_notes.formatted_chord notes
      = Return (tabs_to_notes.format_note_with_enharmonic root
                +:+ " " +:+ chord_type).
Proof.
  intros Hin Hty Htones Hnotes.
  unfold tabs_to_notes.formatted_chord.
  rewrite note_names_formatted, Hnotes.
  rewrite chord_tones_residue in Htones.
  rewrite <- (Z.add_0_r z), semitone_to_note_residue.
  pose proof (residue_cases z) as Hz.
  elem_cases Hz; match goal with H : z mod 12 = _ |- _ => rewrite H in * end;
    elem_cases Hty; elem_cases Hin;
    vm_compute in Htones; injection Htones as <-;
    eexists; (split_and!; [by vm_compute..]).
Qed.

Lemma chord_named_in_every_key_witness :
  ∃ root,
    semitone_to_note (Some 18) = Return root
    ∧ guess_chord (tabs_to_notes.note_names
                     [("E", 2, "F#(Gb)"); ("A", 0, "A"); ("B", 2, "C#(Db)")]%string)
      = Return (root +:+ " " +:+ "minor")
    ∧ tabs_to_notes.formatted_chord
        [("E", 2, "F#(Gb)"); ("A", 0, "A"); ("B", 2, "C#(Db)")]%string
      = Return (tabs_to_notes.format_note_with_enharmonic root +:+ " " +:+ "minor").
Proof.
  apply (chord_named_in_every_key 18 "minor" [0; 3; 7] ["F#"; "A"; "C#"]%string).
  - apply list_elem_of_In. simpl. tauto.
  - apply list_elem_of_In. simpl. tauto.
  - by vm_compute.
  - by vm_compute.
Defined.

(** X13. The tones of a major sixth chord are those of the minor seventh
    chord a minor third below.  The engine tries the lower pitch class
    first: in the keys of C, C# and D it answers with the sixth chord, in
    the nine other keys with the minor seventh chord on the sixth. *)
Theorem sixth_chord_root_order
    (z : Z) (raw_notes : list string) (notes : list (string * Z * string)) :
  chord_tones z [0; 4; 7; 9] = Return raw_notes →
  notes.*2 = tabs_to_notes.format_note_with_enharmonic <$> raw_notes →
  ∃ root,
    semitone_to_note (Some (if z mod 12 <? 3 then z else z + 9)) = Return root
    ∧ guess_chord (tabs_to_notes.note_names notes)
      = Return (root +:+ (if z mod 12 <? 3 then " 6" else " m7")).
Proof.
  intros Htones Hnotes.
  rewrite note_names_formatted, Hnotes.
  rewrite chord_tones_residue in Htones.
  assert (H0 : semitone_to_note (Some z) = semitone_to_note (Some (z mod 12 + 0)))
    by (by rewrite <- semitone_to_note_residue, Z.add_0_r).
  pose proof (semitone_to_note_residue z 9) as H9.
  pose proof (residue_cases z) as Hz.
  elem_cases Hz; match goal with H : z mod 12 = _ |- _ => rewrite H in * end;
    cbv iota beta delta [Z.ltb Z.compare Pos.compare Pos.compare_cont];
    rewrite ?H0, ?H9;
    vm_compute in Htones; injection Htones as <-;
    eexists; (split_and!; [by vm_compute..]).
Qed.

Lemma sixth_chord_root_order_witness :
  ∃ root,
    semitone_to_note (Some (if 9 mod 12 <? 3 then 9 else 9 + 9)) = Return root
    ∧ guess_chord (tabs_to_notes.note_names
                     [("A", 0, "A"); ("D", 11, "C#(Db)"); ("G", 9, "E");
                      ("B", 7, "F#(Gb)")]%string)
      = Return (root +:+ (if 9 mod 12 <? 3 then " 6" else " m7")).
Proof.
  apply (sixth_chord_root_order 9 ["A"; "C#"; "E"; "F#"]%string).
  - by vm_compute.
  - by vm_compute.
Defined.

(** ** Formatting the label *)

Lemma py_split_nil (s : string) : py_split s = [] ↔ blank s = true.
Proof.
  induction s as [|c rest IH]; [done|].
  simpl. destruct (py_isspace c); [exact IH|].
  split; [|done].
  destruct rest as [|c' rest']; [done|].
  destruct (py_isspace c'); [done|].
  by destruct (py_split (String c' rest')).
Qed.

Lemma blank_app (a b : string) : blank (a +:+ b) = blank a && blank b.
Proof.
  induction a as [|c a IH]; [done|].
  simpl. by rewrite IH, andb_assoc.
Qed.

Lemma format_chord_returns (chord : string) :
  blank chord = false →
  ∃ out, tabs_to_notes.format_chord_with_enharmonic chord = Return out.
Proof.
  intros Hblank. unfold tabs_to_notes.format_chord_with_enharmonic.
  case_bool_decide; [by eexists|].
  destruct (py_split chord) as [|root_note words] eqn:Esplit.
  - apply py_split_nil in Esplit. congruence.
  - change (py_index (root_note :: words) 0) with (Return root_note).
    rewrite bind_Return. cbv zeta. case_match; by eexists.
Qed.

(** X14. [format_chord_with_enharmonic] raises exactly on a non-empty string
    of white space only, where no first word exists, and what it raises is
    [IndexError]; the empty string gives ["Unknown"]. *)
Theorem format_chord_raises_iff (chord : string) (e : exn) :
  (tabs_to_notes.format_chord_with_enharmonic chord = Raise e ↔
   e = IndexError ∧ chord ≠ EmptyString ∧ blank chord = true)
  ∧ tabs_to_notes.format_chord_with_enharmonic EmptyString
    = Return "Unknown"%string.
Proof.
  split; [|done]. split.
  - intros Hraise. destruct (blank chord) eqn:Hblank.
    + revert Hraise. unfold tabs_to_notes.format_chord_with_enharmonic.
      case_bool_decide as Hne; [done|].
      apply py_split_nil in Hblank. rewrite Hblank.
      by intros [= <-].
    + destruct (format_chord_returns chord Hblank) as [out Hout]. congruence.
  - intros (-> & Hne & Hblank).
    unfold tabs_to_notes.format_chord_with_enharmonic.
    rewrite bool_decide_eq_false_2 by done.
    apply py_split_nil in Hblank. by rewrite Hblank.
Qed.

Lemma format_chord_raises_iff_witness :
  tabs_to_notes.format_chord_with_enharmonic "  " = Raise IndexError.
Proof.
  apply (proj2 (proj1 (format_chord_raises_iff "  " IndexError))).
  by split_and!.
Defined.

(** What the formatter makes of every label of the vocabulary. *)
Lemma format_chord_vocabulary (root chord_type : string) :
  root ∈ notes_table →
  chord_type ∈ octave_entries.*1 ++ two_note_types →
  tabs_to_notes.format_chord_with_enharmonic (root +:+ " " +:+ chord_type)
  = Return (tabs_to_notes.format_note_with_enharmonic root +:+ " " +:+ chord_type).
Proof.
  intros Hroot Hty. elem_cases Hroot; elem_cases Hty; by vm_compute.
Qed.

(** X15. On two or more tokens, the label the engine returns is formatted
    without an exception: ["Unknown"] stays as it is, and any other label
    keeps its chord type while its root is annotated the way
    [format_note_with_enharmonic] annotates a note. *)
Theorem format_chord_of_guess_chord (notes : list string) (label : string) :
  (2 ≤ length notes)%nat →
  guess_chord notes = Return label →
  (label = "Unknown"%string
   ∧ tabs_to_notes.format_chord_with_enharmonic label = Return "Unknown"%string)
  ∨ ∃ root chord_type,
      label = root +:+ " " +:+ chord_type
      ∧ root ∈ notes_table
      ∧ tabs_to_notes.format_chord_with_enharmonic label
        = Return (tabs_to_notes.format_note_with_enharmonic root
                  +:+ " " +:+ chord_type).
Proof.
  intros Hlen Hguess.
  destruct (guess_chord_shape notes label Hlen Hguess)
    as [->|(t & root & ty & Ht & Hroot & Hty & ->)]; [by left|right].
  apply semitone_to_note_in_table in Hroot.
  exists root, ty. split_and!; [done..|]. by apply format_chord_vocabulary.
Qed.

Lemma format_chord_of_guess_chord_witness :
  ("F# (no fifth)"%string = "Unknown"%string
   ∧ tabs_to_notes.format_chord_with_enharmonic "F# (no fifth)"
     = Return "Unknown"%string)
  ∨ ∃ root chord_type,
      "F# (no fifth)"%string = root +:+ " " +:+ chord_type
      ∧ root ∈ notes_table
      ∧ tabs_to_notes.format_chord_with_enharmonic "F# (no fifth)"
        = Return (tabs_to_notes.format_note_with_enharmonic root
                  +:+ " " +:+ chord_type).
Proof.
  apply (format_chord_of_guess_chord ["Gb"; "Bb"]%string "F# (no fifth)").
  - simpl; lia.
  - by vm_compute.
Defined.

(** X16. The main program fails at the chord exactly when the engine does:
    formatting adds no exception of its own to any label [guess_chord]
    returns, whatever the collected notes. *)
Theorem formatted_chord_raises_iff
    (notes : list (string * Z * string)) (e : exn) :
  tabs_to_notes.formatted_chord notes = Raise e
  ↔ guess_chord (tabs_to_notes.note_names notes) = Raise e.
Proof.
  unfold tabs_to_notes.formatted_chord.
  destruct (guess_chord (tabs_to_notes.note_names notes)) as [label|e'] eqn:Eg;
    [|done].
  rewrite bind_Return. split; [|done]. intros Hraise. exfalso.
  assert (Hblank : blank label = false).
  { destruct (tabs_to_notes.note_names notes) as [|a [|b names]] eqn:En.
    - by simplify_eq/=.
    - injection Eg as <-. rewrite blank_app. apply andb_false_intro2. done.
    - assert (Hlen : (2 ≤ length (a :: b :: names))%nat) by (simpl; lia).
      destruct (guess_chord_shape _ label Hlen Eg)
        as [->|(t & root & ty & _ & _ & Hty & ->)]; [done|].
      rewrite !blank_app. apply andb_false_intro2.
      elem_cases Hty; done. }
  destruct (format_chord_returns label Hblank) as [out Hout]. congruence.
Qed.

Lemma formatted_chord_raises_iff_witness :
  tabs_to_notes.formatted_chord [("E", 0, "H"); ("A", 0, "H")]%string
  = Raise TypeError.
Proof.
  apply (proj2 (formatted_chord_raises_iff
                  [("E", 0, "H"); ("A", 0, "H")]%string TypeError)).
  by vm_compute.
Defined.

Lemma note_to_semitone_accepted_witness : note_to_semitone "Eb" = Some 3.
Proof.
  apply (proj2 (note_to_semitone_accepted "Eb" 3)).
  apply list_elem_of_In. simpl. tauto.
Defined.

Lemma semitone_to_note_congruent_witness :
  semitone_to_note (Some (-1)) = semitone_to_note (Some 11).
Proof. apply (proj2 (semitone_to_note_congruent (-1) 11)). reflexivity. Defined.

(** ** The caller's names in the engine *)

Lemma split_paren_head_idempotent (s : string) :
  split_paren_head (split_paren_head s) = split_paren_head s.
Proof.
  induction s as [|c s IH]; [done|].
  simpl. destruct (Ascii.eqb c "(") eqn:Ec; [done|].
  simpl. by rewrite Ec, IH.
Qed.

(** X17. The names the main program hands over are already free of any
    parenthesis, so the engine's own stripping leaves them as they are. *)
Theorem engine_strip_after_caller (notes : list (string * Z * string)) :
  cleaned_notes (tabs_to_notes.note_names notes) = tabs_to_notes.note_names notes.
Proof.
  unfold cleaned_notes, tabs_to_notes.note_names.
  rewrite <- list_fmap_compose. apply list_fmap_ext.
  intros i [[name fret] note] _. simpl.
  unfold normalize_note.
  destruct (enharmonic_map !! split_paren_head note) as [y|] eqn:E; simpl.
  - apply enharmonic_lookup_Some in E.
    remember (split_paren_head note) as s. clear Heqs.
    elem_cases E; by vm_compute.
  - apply split_paren_head_idempotent.
Qed.

(** X18. Behind the caller's normalisation the engine's conversion is the
    plain table lookup: a name converts exactly when it is one of the twelve
    sharp-spelled names, and a flat spelling, swapped to a sharp by the
    caller, is swapped back and lost. *)
Theorem note_to_semitone_after_caller (note : string) (z : Z) :
  (note_to_semitone (normalize_note note) = Some z ↔ (note, z) ∈ semitone_items)
  ∧ note_to_semitone (normalize_note "Bb") = None.
Proof.
  split; [|by vm_compute].
  unfold note_to_semitone. rewrite normalize_note_twice. split.
  - apply semitone_lookup_Some.
  - intros H. elem_cases H; by vm_compute.
Qed.

Lemma note_to_semitone_after_caller_witness :
  note_to_semitone (normalize_note "F#") = Some 6.
Proof.
  apply (proj2 (proj1 (note_to_semitone_after_caller "F#" 6))).
  apply list_elem_of_In. simpl. tauto.
Defined.

(** ** Five or more pitches *)

(** No catalogue entry fits a signature of five or more offsets: the
    entries within the octave are too short, the extended ones hold 14. *)
Lemma no_fit_five (sig : list Z) (e : string * list Z) :
  e ∈ chord_intervals → (5 ≤ length sig)%nat → Forall is_offset sig →
  ¬ fits sig e.
Proof.
  intros He Hlen Hoff Hfit.
  assert (Hoct : ∃ e', e' ∈ octave_entries ∧ fits sig e').
  { change chord_intervals with (octave_entries ++ extended_entries) in He.
    apply elem_of_app in He as [He|He]; [by eauto|].
    apply (extended_entry_shadowed sig e); [done|lia|done..]. }
  destruct Hoct as (e' & He' & Hfit'). unfold fits in Hfit'.
  apply (f_equal length) in Hfit'. rewrite length_take in Hfit'.
  elem_cases He'; simpl in Hfit'; lia.
Qed.

Lemma match_pattern_five (sig : list Z) :
  (5 ≤ length sig)%nat → Forall is_offset sig →
  match_pattern sig chord_intervals = None.
Proof.
  intros Hlen Hoff. rewrite match_pattern_find by lia.
  destruct (find _ chord_intervals) as [e|] eqn:E; [|done].
  apply find_some in E as [Hin Hfit].
  apply list_elem_of_In in Hin. apply bool_decide_eq_true in Hfit.
  by destruct (no_fit_five sig e).
Qed.

Lemma try_roots_five (S R : list Z) :
  (5 ≤ length S)%nat → try_roots (Some <$> S) (Some <$> R) = Return None.
Proof.
  intros Hlen. induction R as [|r R IH]; [done|].
  rewrite fmap_cons, try_roots_cons.
  pose proof (intervals_of_ints r S) as Hint. rewrite Hint, bind_Return.
  rewrite match_pattern_five; [exact IH| |].
  - by rewrite length_signature.
  - by eapply intervals_of_offsets.
Qed.

(** X19. An input whose tokens convert to five or more distinct values is
    answered ["Unknown"]: the engine never names a chord of five pitch
    classes or more. *)
Theorem guess_chord_five_pitches (notes : list string) :
  (5 ≤ size (semitone_set notes))%nat →
  guess_chord notes = Return "Unknown"%string.
Proof.
  intros Hsize.
  pose proof (semitone_set_size_le notes) as Hle.
  rewrite guess_chord_two_or_more by lia.
  destruct (decide (Forall (fun t => is_Some (note_to_semitone (split_paren_head t)))
                           notes)) as [Hall|Hbad].
  - destruct (semitone_set_ints notes Hall) as (zs & Hzs & _).
    assert (Hlen : (5 ≤ length (sorted_ints zs))%nat).
    { rewrite length_sorted_ints, <- (length_fmap Some), <- Hzs. exact Hsize. }
    rewrite Hzs, py_sorted_ints, try_roots_five, bind_Return by done.
    apply special_cases_not_two. rewrite length_fmap. lia.
  - apply not_Forall_Exists in Hbad; [|apply _].
    apply Exists_exists in Hbad as (t1 & Ht1 & Hbad).
    assert (Hnone : note_to_semitone (split_paren_head t1) = None).
    { destruct (note_to_semitone (split_paren_head t1)) eqn:E1; [|done].
      exfalso. apply Hbad. by eexists. }
    destruct (decide (Forall (fun t => note_to_semitone (split_paren_head t) = None)
                             notes)) as [Hallnone|Hmixed].
    + exfalso.
      assert (Hne : notes ≠ []) by (intros ->; by apply elem_of_nil in Ht1).
      pose proof (semitone_set_constant notes None Hne Hallnone) as Hel.
      change (size (semitone_set notes)) with (length (elements (semitone_set notes)))
        in Hsize.
      rewrite Hel in Hsize. simpl in Hsize. lia.
    + apply not_Forall_Exists in Hmixed; [|apply _].
      apply Exists_exists in Hmixed as (t2 & Ht2 & Hgood).
      destruct (note_to_semitone (split_paren_head t2)) as [z|] eqn:E2; [|done].
      rewrite (py_sorted_mixed _ z); [done| |];
        apply elem_of_elements, semitone_set_elem; eauto.
Qed.

Lemma guess_chord_five_pitches_witness :
  guess_chord ["C"; "E"; "G"; "Bb"; "D"]%string = Return "Unknown"%string.
Proof.
  apply (guess_chord_five_pitches ["C"; "E"; "G"; "Bb"; "D"]%string).
  vm_compute. lia.
Defined.
